(** * quotelessstrings: undefined names that act as their own text

    A shallow embedding of [quotelessstrings.py].  The module defines a
    subclass [Name] of [str] whose operators render the operation as text,
    and, when imported, binds every name the importing program refers to and
    that is not yet defined to a [Name] holding that name.

    The embedding follows the source function by function: the three
    decorators [lop], [rop] and [cop], the methods of [class Name], the
    helper [findnames] and the population loop at the end of the module.
    What the interpreter does around them (how an operator finds its
    handler, how a call binds its arguments, how an attribute is looked up)
    is written out next to the method it concerns. *)

From stdpp Require Import base strings gmap list pretty.
From Stdlib Require Import ZArith.

Local Open Scope Z_scope.
Local Open Scope string_scope.

(** ** Exceptions and results *)

Inductive exception : Type :=
  | AssertionError
  | IndexError
  | TypeError
  | KeyError
  | AttributeError.

Inductive result (A : Type) : Type :=
  | Ok (a : A)
  | Raise (e : exception).
Arguments Ok {A} a.
Arguments Raise {A} e.

#[global] Instance result_ret : MRet result := fun A a => Ok a.
#[global] Instance result_bind : MBind result := fun A B k r =>
  match r with
  | Ok a => k a
  | Raise e => Raise e
  end.
#[global] Instance result_fmap : FMap result := fun A B f r =>
  match r with
  | Ok a => Ok (f a)
  | Raise e => Raise e
  end.

(** ** Values

    A [Name] is a [str] that carries its text and nothing else.  The other
    constructors are the values of the interpreter that an importing
    program typically mixes with names: strings, integers, booleans,
    [None] and the slice objects that [a[i:j]] builds from integer or
    omitted bounds. *)

Record Name : Type := mkName { text : string }.

Inductive value : Type :=
  | VName (t : Name)
  | VStr (s : string)
  | VInt (n : Z)
  | VBool (b : bool)
  | VNone
  | VSlice (start stop step : option Z).

Definition is_Name (v : value) : bool :=
  match v with VName _ => true | _ => false end.

Definition is_slice (v : value) : bool :=
  match v with VSlice _ _ _ => true | _ => false end.

(** [repr] of a slice bound: an integer in decimal, or [None]. *)
Definition repr_bound (b : option Z) : string :=
  match b with
  | Some n => pretty n
  | None => "None"
  end.

(** [str(v)], which is also what [f'{v}'] and [format(v, '')] produce for
    these types.  A [Name] inherits [__str__] and [__format__] from [str],
    so it renders as its text, without quotes. *)
Definition py_str (v : value) : string :=
  match v with
  | VName t => text t
  | VStr s => s
  | VInt n => pretty n
  | VBool true => "True"
  | VBool false => "False"
  | VNone => "None"
  | VSlice a b c =>
      "slice(" +:+ repr_bound a +:+ ", " +:+ repr_bound b +:+ ", "
               +:+ repr_bound c +:+ ")"
  end.

(** ** The decorators *)

(** [lop(operator)]: [self.__class__(f'{self}{operator}{other}')]. *)
Definition lop (operator : string) (self : Name) (other : value) : Name :=
  mkName (text self +:+ operator +:+ py_str other).

(** [rop(operator)]: [self.__class__(f'{other}{operator}{self}')]. *)
Definition rop (operator : string) (self : Name) (other : value) : Name :=
  mkName (py_str other +:+ operator +:+ text self).

(** *** Frames and decoded instructions, as [cop] reads them *)

(** An entry of [dis.get_instructions]: the opcode's name and its decoded
    argument.  For [COMPARE_OP] the argument is the operator as text; [cop]
    reads it for no other opcode. *)
Record Instruction : Type := mkInstruction { opname : string; argval : string }.

(** A code object: [co_names], the names its instructions look up or store
    by name (globals, built-ins, attributes, imports, and at module level
    the module's own variables; the local variables of a function are not
    among them); [co_consts], its constants, among them the code objects of
    the functions, lambdas, classes and comprehensions defined in it; and
    its instructions in order, one per two bytes of bytecode. *)
Inductive code : Type :=
  | Code (names : list string) (consts : list const) (instrs : list Instruction)
with const : Type :=
  | ConstCode (c : code)
  | ConstValue (v : value).

Definition co_names (c : code) : list string :=
  match c with Code names _ _ => names end.
Definition co_consts (c : code) : list const :=
  match c with Code _ consts _ => consts end.
Definition get_instructions (c : code) : list Instruction :=
  match c with Code _ _ instrs => instrs end.

(** [frame.f_locals]: at module level it is the very dictionary that
    [frame.f_globals] is; in a function or class body it is a dictionary of
    its own. *)
Inductive locals_tier : Type :=
  | LocalsAreGlobals
  | LocalsOwn (d : gmap string value).

Record frame : Type := mkFrame {
  f_code : code;
  f_lasti : Z;
  f_globals : gmap string value;
  f_locals : locals_tier
}.

(** [l[i]] on a Python list: a negative index counts from the end, an index
    out of range raises [IndexError]. *)
Definition list_getitem {A : Type} (l : list A) (i : Z) : result A :=
  let n := Z.of_nat (length l) in
  let j := (if i <? 0 then i + n else i)%Z in
  if ((j <? 0)%Z || (n <=? j)%Z)%bool then Raise IndexError
  else match l !! Z.to_nat j with
       | Some x => Ok x
       | None => Raise IndexError
       end.

(** The instruction the frame is executing: [instrs[frame.f_lasti//2]]. *)
Definition current_instruction (fr : frame) : result Instruction :=
  list_getitem (get_instructions (f_code fr)) (f_lasti fr / 2)%Z.

(** [cop(operator)].  [f_back] is the frame of the caller,
    [inspect.currentframe().f_back]. *)
Definition cop (operator : string) (self : Name) (other : value)
    (f_back : frame) : result Name :=
  lasti ← current_instruction f_back;
  if String.eqb (opname lasti) "COMPARE_OP" then
    if String.eqb (argval lasti) operator then
      Ok (mkName (text self +:+ operator +:+ py_str other))
    else
      Ok (mkName (py_str other +:+ argval lasti +:+ text self))
  else Raise AssertionError.

(** ** [class Name(str)] *)

Module NameClass.

(** [def __call__(self, *args, **kwargs)].  The call [a(x, ..., k=y, ...)]
    binds [a] to the parameter [self], the positional arguments to [args]
    and the keyword arguments, in the order written, to [kwargs]; a
    keyword spelled [self] names a parameter that is already bound, and
    the call raises [TypeError] before the body runs. *)
Definition __call__ (self : Name) (args : list value)
    (kwargs : list (string * value)) : result Name :=
  if bool_decide ("self" ∈ kwargs.*1) then Raise TypeError
  else
    let strs := ((py_str <$> args)
                 ++ ((fun kv => kv.1 +:+ "=" +:+ py_str kv.2) <$> kwargs))%list in
    Ok (mkName (text self +:+ "(" +:+ String.concat "," strs +:+ ")")).

Definition __getitem__ (self : Name) (key : value) : Name :=
  mkName (text self +:+ "[" +:+ py_str key +:+ "]").

Definition __invert__ (self : Name) : Name :=
  mkName ("~" +:+ text self).

Definition __add__ := lop "+".
Definition __radd__ := rop "+".

Definition __sub__ := lop "-".
Definition __rsub__ := rop "-".

Definition __mul__ := lop "*".
Definition __rmul__ := rop "*".

Definition __matmul__ := lop "@".
Definition __rmatmul__ := rop "@".

Definition __truediv__ := lop "/".
Definition __rtruediv__ := rop "/".

Definition __floordiv__ := lop "//".
Definition __rfloordiv__ := rop "//".

Definition __mod__ := lop "%".
Definition __rmod__ := rop "%".

Definition __pow__ := lop "**".
Definition __rpow__ := rop "**".

Definition __lshift__ := lop "<<".
Definition __rlshift__ := rop "<<".

Definition __rshift__ := lop ">>".
Definition __rrshift__ := rop ">>".

Definition __and__ := lop "&".
Definition __rand__ := rop "&".

Definition __or__ := lop "|".
Definition __ror__ := rop "|".

Definition __xor__ := lop "^".
Definition __rxor__ := rop "^".

Definition __eq__ := lop "==".
Definition __req__ := rop "==".

Definition __ne__ := lop "!=".
Definition __rne__ := rop "!=".

Definition __gt__ := cop ">".

Definition __lt__ := cop "<".

Definition __ge__ := cop ">=".

Definition __le__ := cop "<=".

Definition __getattr__ := lop ".".

(** The names bound in the class body, which is what the class's own
    dictionary holds besides the entries every class statement adds. *)
Definition methods : list string :=
  [ "__call__"; "__getitem__"; "__invert__";
    "__add__"; "__radd__"; "__sub__"; "__rsub__"; "__mul__"; "__rmul__";
    "__matmul__"; "__rmatmul__"; "__truediv__"; "__rtruediv__";
    "__floordiv__"; "__rfloordiv__"; "__mod__"; "__rmod__";
    "__pow__"; "__rpow__"; "__lshift__"; "__rlshift__";
    "__rshift__"; "__rrshift__"; "__and__"; "__rand__";
    "__or__"; "__ror__"; "__xor__"; "__rxor__";
    "__eq__"; "__req__"; "__ne__"; "__rne__";
    "__gt__"; "__lt__"; "__ge__"; "__le__"; "__getattr__" ].

End NameClass.

(** ** How the interpreter reaches the methods *)

(** *** Binary operators *)

Inductive binop : Type :=
  | Add | Sub | Mult | MatMult | Div | FloorDiv | Mod | Pow
  | LShift | RShift | BitAnd | BitOr | BitXor.

(** The operator as it is written in an expression. *)
Definition binop_symbol (op : binop) : string :=
  match op with
  | Add => "+" | Sub => "-" | Mult => "*" | MatMult => "@"
  | Div => "/" | FloorDiv => "//" | Mod => "%" | Pow => "**"
  | LShift => "<<" | RShift => ">>"
  | BitAnd => "&" | BitOr => "|" | BitXor => "^"
  end.

(** The method the interpreter calls on the left operand. *)
Definition nb_method (op : binop) : Name -> value -> Name :=
  match op with
  | Add => NameClass.__add__ | Sub => NameClass.__sub__
  | Mult => NameClass.__mul__ | MatMult => NameClass.__matmul__
  | Div => NameClass.__truediv__ | FloorDiv => NameClass.__floordiv__
  | Mod => NameClass.__mod__ | Pow => NameClass.__pow__
  | LShift => NameClass.__lshift__ | RShift => NameClass.__rshift__
  | BitAnd => NameClass.__and__ | BitOr => NameClass.__or__
  | BitXor => NameClass.__xor__
  end.

(** The reflected method, called on the right operand with the left one as
    argument. *)
Definition nb_reflected (op : binop) : Name -> value -> Name :=
  match op with
  | Add => NameClass.__radd__ | Sub => NameClass.__rsub__
  | Mult => NameClass.__rmul__ | MatMult => NameClass.__rmatmul__
  | Div => NameClass.__rtruediv__ | FloorDiv => NameClass.__rfloordiv__
  | Mod => NameClass.__rmod__ | Pow => NameClass.__rpow__
  | LShift => NameClass.__rlshift__ | RShift => NameClass.__rrshift__
  | BitAnd => NameClass.__rand__ | BitOr => NameClass.__ror__
  | BitXor => NameClass.__rxor__
  end.

(** *** Comparisons *)

Inductive cmpop : Type := Lt | LtE | Eq | NotEq | Gt | GtE.

(** The operator as written, which is also the [argval] that [dis] decodes
    from a [COMPARE_OP] instruction. *)
Definition cmp_symbol (op : cmpop) : string :=
  match op with
  | Lt => "<" | LtE => "<=" | Eq => "==" | NotEq => "!=" | Gt => ">" | GtE => ">="
  end.

Definition is_ordering (op : cmpop) : bool :=
  match op with Lt | LtE | Gt | GtE => true | Eq | NotEq => false end.

(** The operator the interpreter asks the right operand for when it flips a
    comparison: [<] and [>] change places, so do [<=] and [>=], and [==]
    and [!=] are their own reflections.  There is no [__req__] or [__rne__]
    in this protocol. *)
Definition swapped (op : cmpop) : cmpop :=
  match op with
  | Lt => Gt | LtE => GtE | Eq => Eq | NotEq => NotEq | Gt => Lt | GtE => LtE
  end.

(** The rich-comparison method of [Name] for each operator; [caller] is the
    frame that executes the comparison and so the [f_back] of the method. *)
Definition tp_richcompare (op : cmpop) (self : Name) (other : value)
    (caller : frame) : result Name :=
  match op with
  | Lt => NameClass.__lt__ self other caller
  | LtE => NameClass.__le__ self other caller
  | Eq => Ok (NameClass.__eq__ self other)
  | NotEq => Ok (NameClass.__ne__ self other)
  | Gt => NameClass.__gt__ self other caller
  | GtE => NameClass.__ge__ self other caller
  end.

(** The frame stands at the instruction compiled from [_ op _]. *)
Definition executes_compare (fr : frame) (op : cmpop) : Prop :=
  current_instruction fr = Ok (mkInstruction "COMPARE_OP" (cmp_symbol op)).

Section Dispatch.

(** What the handlers of the interpreter's own types make of a pair of
    operands: [None] when none of them applies (the type has no such method,
    or the method returns [NotImplemented]). *)
Variable host_binary_op : binop -> value -> value -> option (result value).
Variable host_richcompare : cmpop -> value -> value -> option (result value).

(** [v op w].  The left operand's method comes first, except that a right
    operand whose type is a proper subclass of the left operand's type and
    overrides the reflected method is asked first: this is the case of a
    [str] on the left of a [Name].  No method of [Name] ever returns
    [NotImplemented], so whichever of them is reached decides. *)
Definition binary_op (op : binop) (v w : value) : result value :=
  match v, w with
  | VName a, _ => Ok (VName (nb_method op a w))
  | VStr _, VName b => Ok (VName (nb_reflected op b v))
  | _, VName b =>
      match host_binary_op op v w with
      | Some r => r
      | None => Ok (VName (nb_reflected op b v))
      end
  | _, _ =>
      match host_binary_op op v w with
      | Some r => r
      | None => Raise TypeError
      end
  end.

(** [v op w] for a comparison, executed by [caller]; same order of
    attempts, with the swapped operator in place of a reflected method. *)
Definition rich_compare (caller : frame) (op : cmpop) (v w : value)
    : result value :=
  match v, w with
  | VName a, _ => VName <$> tp_richcompare op a w caller
  | VStr _, VName b => VName <$> tp_richcompare (swapped op) b v caller
  | _, VName b =>
      match host_richcompare op v w with
      | Some r => r
      | None => VName <$> tp_richcompare (swapped op) b v caller
      end
  | _, _ =>
      match host_richcompare op v w with
      | Some r => r
      | None => Raise TypeError
      end
  end.

End Dispatch.

(** *** Attribute access *)

(** What [a.attr] evaluates to: an attribute that ordinary lookup finds on
    the instance or its type, or the token that [__getattr__] computes. *)
Inductive attribute : Type :=
  | Found (attr : string)
  | Computed (t : Name).

(** Methods of [str] that every interpreter the module runs on defines. *)
Definition str_methods : list string :=
  [ "capitalize"; "casefold"; "center"; "count"; "encode"; "endswith";
    "expandtabs"; "find"; "format"; "format_map"; "index"; "isalnum";
    "isalpha"; "isdecimal"; "isdigit"; "isidentifier"; "islower";
    "isnumeric"; "isprintable"; "isspace"; "istitle"; "isupper"; "join";
    "ljust"; "lower"; "lstrip"; "maketrans"; "partition"; "replace";
    "rfind"; "rindex"; "rjust"; "rpartition"; "rsplit"; "rstrip"; "split";
    "splitlines"; "startswith"; "strip"; "swapcase"; "title"; "translate";
    "upper"; "zfill" ].

(** [a.attr].  [__getattr__] is the hook the interpreter calls only after
    ordinary lookup has failed; [inherited] lists what [str] and [object]
    define in the running interpreter and what the instance's own
    dictionary holds. *)
Definition getattr (inherited : list string) (self : Name) (attr : string)
    : attribute :=
  if bool_decide (attr ∈ (NameClass.methods ++ inherited)%list) then Found attr
  else Computed (NameClass.__getattr__ self (VStr attr)).

(** ** Population of the importing module *)

(** [findnames(code)]: the code object's own names, followed by those of
    every code object among its constants, in order. *)
Fixpoint findnames (c : code) : list string :=
  match c with
  | Code co_names co_consts _ =>
      (fix loop (names : list string) (consts : list const) : list string :=
         match consts with
         | [] => names
         | ConstCode c' :: rest => loop (names ++ findnames c')%list rest
         | ConstValue _ :: rest => loop names rest
         end) co_names co_consts
  end.

(** [name in frame.f_locals], evaluated while [frame.f_globals] is [g]. *)
Definition in_locals (locals : locals_tier) (g : gmap string value)
    (name : string) : bool :=
  match locals with
  | LocalsAreGlobals => bool_decide (is_Some (g !! name))
  | LocalsOwn d => bool_decide (is_Some (d !! name))
  end.

(** One turn of the loop [for name in findnames(frame.f_code)]; [builtins]
    is the set of keys of [__builtins__]. *)
Definition populate_name (builtins : gset string) (locals : locals_tier)
    (g : gmap string value) (name : string) : gmap string value :=
  if bool_decide (name ∉ builtins)
     && bool_decide (g !! name = None)
     && negb (in_locals locals g name)
  then <[name := VName (mkName name)]> g
  else g.

Definition populate (builtins : gset string) (fr : frame)
    : gmap string value :=
  foldl (populate_name builtins (f_locals fr)) (f_globals fr)
        (findnames (f_code fr)).

(** [while frame.f_globals['__name__'] != '__main__': frame = frame.f_back],
    on the chain of callers from the innermost outwards.  Only the string
    ['__main__'] stops the walk; running off the end of the chain leaves
    [None] in [frame], whose [f_globals] does not exist. *)
Fixpoint importing_frame (stack : list frame) : result frame :=
  match stack with
  | [] => Raise AttributeError
  | fr :: f_back =>
      match f_globals fr !! "__name__" with
      | None => Raise KeyError
      | Some (VStr s) =>
          if String.eqb s "__main__" then Ok fr else importing_frame f_back
      | Some _ => importing_frame f_back
      end
  end.

(** The statements at the end of the module, run when it is loaded under
    the name [__name__] from the chain of callers [stack].  The result is
    the module-level namespace of the frame that was populated, or [None]
    when the module runs as the main program and populates nothing. *)
Definition on_load (__name__ : string) (builtins : gset string)
    (stack : list frame) : result (option (gmap string value)) :=
  if String.eqb __name__ "__main__" then Ok None
  else
    fr ← importing_frame stack;
    Ok (Some (populate builtins fr)).

(** A code object [c'] is [c] itself or lies, at any depth, among the
    constants of [c]. *)
Inductive nested_in : code -> code -> Prop :=
  | nested_here c : nested_in c c
  | nested_const c c' c'' :
      ConstCode c' ∈ co_consts c -> nested_in c'' c' -> nested_in c'' c.

(** On a first load no [Name] exists before the module body has run, so
    none is bound anywhere yet. *)
Definition no_token_bound (g : gmap string value) : Prop :=
  map_Forall (fun _ v => is_Name v = false) g.

(** The test of the loop on [name], while [frame.f_globals] is [g]. *)
Definition unbound (builtins : gset string) (locals : locals_tier)
    (g : gmap string value) (name : string) : bool :=
  bool_decide (name ∉ builtins)
  && bool_decide (g !! name = None)
  && negb (in_locals locals g name).

(** The three tiers the loop consults before it binds a name. *)
Definition defined_before (builtins : gset string) (fr : frame)
    (x : string) : Prop :=
  x ∈ builtins \/ is_Some (f_globals fr !! x)
  \/ match f_locals fr with
     | LocalsAreGlobals => is_Some (f_globals fr !! x)
     | LocalsOwn d => is_Some (d !! x)
     end.

(** The test that ends the walk of [importing_frame] at [fr]: its
    [__name__] is the string ['__main__']. *)
Definition is_main (fr : frame) : bool :=
  match f_globals fr !! "__name__" with
  | Some (VStr s) => String.eqb s "__main__"
  | _ => false
  end.

(** A frame the walk steps over: it has a [__name__], which is not the
    string ['__main__']. *)
Definition stepped_over (fr : frame) : Prop :=
  is_Some (f_globals fr !! "__name__") /\ is_main fr = false.

(** The frame [fr] once its module-level namespace has become [g]. *)
Definition with_globals (fr : frame) (g : gmap string value) : frame :=
  mkFrame (f_code fr) (f_lasti fr) g (f_locals fr).



(** ** Sample frames *)

(** A module-level frame of [a < b], stopped at its third instruction. *)
Definition frame_a_lt_b : frame :=
  mkFrame
    (Code ["a"; "b"] [ConstValue VNone]
       [ mkInstruction "LOAD_NAME" "a"; mkInstruction "LOAD_NAME" "b";
         mkInstruction "COMPARE_OP" "<"; mkInstruction "POP_TOP" "";
         mkInstruction "LOAD_CONST" "None"; mkInstruction "RETURN_VALUE" "" ])
    4 ∅ LocalsAreGlobals.

(** A module-level frame of [a.__lt__(b)], stopped at the call. *)
Definition frame_direct_call : frame :=
  mkFrame
    (Code ["a"; "__lt__"; "b"] [ConstValue VNone]
       [ mkInstruction "LOAD_NAME" "a"; mkInstruction "LOAD_METHOD" "__lt__";
         mkInstruction "LOAD_NAME" "b"; mkInstruction "CALL_METHOD" "1";
         mkInstruction "POP_TOP" ""; mkInstruction "LOAD_CONST" "None";
         mkInstruction "RETURN_VALUE" "" ])
    6 ∅ LocalsAreGlobals.








(** The body of [def f(): return y]. *)
Definition code_f : code :=
  Code ["y"] [ConstValue VNone]
    [ mkInstruction "LOAD_GLOBAL" "y"; mkInstruction "RETURN_VALUE" "" ].

(** The main program
<<
x = 5
import quotelessstrings
def f(): return y
print(john.smith, x)
>>
    stopped at its [import] statement. *)
Definition frame_main : frame :=
  mkFrame
    (Code ["x"; "quotelessstrings"; "f"; "print"; "john"; "smith"]
       [ ConstValue (VInt 5); ConstValue (VInt 0); ConstValue VNone;
         ConstCode code_f; ConstValue (VStr "f") ]
       [ mkInstruction "LOAD_CONST" "5"; mkInstruction "STORE_NAME" "x";
         mkInstruction "LOAD_CONST" "0"; mkInstruction "LOAD_CONST" "None";
         mkInstruction "IMPORT_NAME" "quotelessstrings";
         mkInstruction "STORE_NAME" "quotelessstrings";
         mkInstruction "LOAD_CONST" "<code object f>";
         mkInstruction "LOAD_CONST" "f"; mkInstruction "MAKE_FUNCTION" "0";
         mkInstruction "STORE_NAME" "f"; mkInstruction "LOAD_NAME" "print";
         mkInstruction "LOAD_NAME" "john"; mkInstruction "LOAD_ATTR" "smith";
         mkInstruction "LOAD_NAME" "x"; mkInstruction "CALL_FUNCTION" "2";
         mkInstruction "POP_TOP" ""; mkInstruction "LOAD_CONST" "None";
         mkInstruction "RETURN_VALUE" "" ])
    8
    (<["x" := VInt 5]> (<["__name__" := VStr "__main__"]> ∅))
    LocalsAreGlobals.

(** A frame of the import machinery between the module and its importer. *)
Definition frame_importlib : frame :=
  mkFrame
    (Code ["f"] []
       [ mkInstruction "LOAD_FAST" "f"; mkInstruction "LOAD_FAST" "args";
         mkInstruction "LOAD_FAST" "kwds";
         mkInstruction "CALL_FUNCTION_EX" "1";
         mkInstruction "RETURN_VALUE" "" ])
    6
    (<["__name__" := VStr "importlib._bootstrap"]> ∅)
    (LocalsOwn ∅).

Definition sample_builtins : gset string :=
  list_to_set ["print"; "len"; "None"; "True"; "False"].

(** * Properties *)

(** ** The decorated methods *)

Lemma append_assoc (s1 s2 s3 : string) :
  (s1 +:+ s2) +:+ s3 = s1 +:+ s2 +:+ s3.
Proof.
  induction s1 as [|c s1 IH]; [reflexivity|].
  change (String c (s1 +:+ s2 +:+ s3)) with (String c s1 +:+ s2 +:+ s3).
  change (String c ((s1 +:+ s2) +:+ s3) = String c (s1 +:+ s2 +:+ s3)).
  by rewrite IH.
Qed.

(** Every left-hand method is [lop] at the symbol of its operator. *)
Lemma nb_method_lop (op : binop) : nb_method op = lop (binop_symbol op).
Proof. by destruct op. Qed.

(** Every reflected method is [rop] at the symbol of its operator. *)
Lemma nb_reflected_rop (op : binop) : nb_reflected op = rop (binop_symbol op).
Proof. by destruct op. Qed.

Lemma binary_op_left host (op : binop) (a : Name) (w : value) :
  binary_op host op (VName a) w
  = Ok (VName (mkName (text a +:+ binop_symbol op +:+ py_str w))).
Proof. unfold binary_op. by rewrite nb_method_lop. Qed.

Lemma binary_op_right host (op : binop) (v : value) (a : Name) :
  host op v (VName a) = None ->
  binary_op host op v (VName a)
  = Ok (VName (mkName (py_str v +:+ binop_symbol op +:+ text a))).
Proof.
  intros Hhost. unfold binary_op.
  rewrite nb_method_lop, nb_reflected_rop.
  destruct v; try rewrite Hhost; reflexivity.
Qed.

(** The text of a successful call, for keyword arguments that leave the
    parameter [self] alone. *)
Lemma call_renders (a : Name) (args : list value)
    (kwargs : list (string * value)) :
  "self" ∉ kwargs.*1 ->
  NameClass.__call__ a args kwargs
  = Ok (mkName (text a +:+ "("
         +:+ String.concat ","
               ((py_str <$> args)
                ++ ((fun kv => kv.1 +:+ "=" +:+ py_str kv.2) <$> kwargs))%list
         +:+ ")")).
Proof.
  intros Hself. unfold NameClass.__call__.
  by rewrite bool_decide_eq_false_2.
Qed.

Lemma call_self_keyword (a : Name) (args : list value)
    (kwargs : list (string * value)) :
  "self" ∈ kwargs.*1 -> NameClass.__call__ a args kwargs = Raise TypeError.
Proof.
  intros Hself. unfold NameClass.__call__.
  by rewrite bool_decide_eq_true_2.
Qed.

(** The example of the module's docstring: [john.smith@example.com]
    evaluates to the token [john.smith@example.com]. *)
Lemma docstring_example host :
  exists l r : Name,
    getattr str_methods (mkName "john") "smith" = Computed l
    /\ getattr str_methods (mkName "example") "com" = Computed r
    /\ binary_op host MatMult (VName l) (VName r)
       = Ok (VName (mkName "john.smith@example.com")).
Proof. do 2 eexists. repeat split. Qed.

(** ** Binary operators *)

(** C2: for a token [a], a supported binary operator [op] and any value,
    [a op b] is the token with text [{a}{op}{b}], and [v op a] is the token
    with text [{v}{op}{a}] whenever the handlers of [v]'s own type do not
    apply; the result is text whatever the operands are. *)
Theorem binary_operator_renders_infix host (op : binop) (a : Name) :
  (forall b : value,
     binary_op host op (VName a) b
     = Ok (VName (mkName (text a +:+ binop_symbol op +:+ py_str b))))
  /\ (forall v : value,
        host op v (VName a) = None ->
        binary_op host op v (VName a)
        = Ok (VName (mkName (py_str v +:+ binop_symbol op +:+ text a)))).
Proof.
  split.
  - intros b. apply binary_op_left.
  - intros v Hhost. by apply binary_op_right.
Qed.

Lemma binary_operator_renders_infix_witness :
  binary_op (fun _ _ _ => None) Add (VName (mkName "1")) (VInt 2)
  = Ok (VName (mkName "1+2"))
  /\ binary_op (fun _ _ _ => None) FloorDiv (VInt 7) (VName (mkName "a"))
     = Ok (VName (mkName "7//a")).
Proof.
  split.
  - exact (proj1 (binary_operator_renders_infix
                    (fun _ _ _ => None) Add (mkName "1")) (VInt 2)).
  - exact (proj2 (binary_operator_renders_infix
                    (fun _ _ _ => None) FloorDiv (mkName "a"))
                 (VInt 7) eq_refl).
Defined.

(** ** Subscripts *)

(** C9: for a token [a] and a key [k] that is not a slice, [a[k]] is the
    token with text [{a}[{k}]]; [a[0]] has text [A[0]]. *)
Theorem getitem_renders_key (a : Name) (k : value) :
  is_slice k = false ->
  NameClass.__getitem__ a k = mkName (text a +:+ "[" +:+ py_str k +:+ "]")
  /\ NameClass.__getitem__ a (VInt 0) = mkName (text a +:+ "[0]").
Proof. intros _. split; reflexivity. Qed.

Lemma getitem_renders_key_witness :
  NameClass.__getitem__ (mkName "A") (VInt 0) = mkName "A[0]"
  /\ NameClass.__getitem__ (mkName "A") (VStr "k") = mkName "A[k]".
Proof.
  split.
  - exact (proj2 (getitem_renders_key (mkName "A") (VInt 0) eq_refl)).
  - exact (proj1 (getitem_renders_key (mkName "A") (VStr "k") eq_refl)).
Defined.

(** ** Rendering of embedded values *)

(** C10: a value that is not a token is embedded by its [str] conversion,
    not by its source form: as operand of a binary operator on either side,
    as positional or keyword argument of a call, and as subscript key.  A
    string operand loses its quotes, so [a + 'x'] cannot be told from [a]
    plus the token [x]; the slice key of [a[1:2]] appears as
    [slice(1, 2, None)]. *)
Theorem embedded_values_use_str (a : Name) :
  (forall (op : binop) (v : value),
     nb_method op a v = mkName (text a +:+ binop_symbol op +:+ py_str v)
     /\ nb_reflected op a v = mkName (py_str v +:+ binop_symbol op +:+ text a))
  /\ (forall (args : list value) (kwargs : list (string * value)) (t : Name),
        NameClass.__call__ a args kwargs = Ok t ->
        text t = text a +:+ "("
                 +:+ String.concat ","
                       ((py_str <$> args)
                        ++ ((fun kv => kv.1 +:+ "=" +:+ py_str kv.2)
                              <$> kwargs))%list
                 +:+ ")")
  /\ (forall key : value,
        NameClass.__getitem__ a key
        = mkName (text a +:+ "[" +:+ py_str key +:+ "]"))
  /\ (forall (host : binop -> value -> value -> option (result value))
             (s : string),
        py_str (VStr s) = s
        /\ binary_op host Add (VName a) (VStr s)
           = binary_op host Add (VName a) (VName (mkName s))
        /\ binary_op host Add (VName a) (VStr "x")
           = Ok (VName (mkName (text a +:+ "+x"))))
  /\ NameClass.__getitem__ a (VSlice (Some 1%Z) (Some 2%Z) None)
     = mkName (text a +:+ "[slice(1, 2, None)]").
Proof.
  split; [|split; [|split; [|split]]].
  - intros op v. by rewrite nb_method_lop, nb_reflected_rop.
  - intros args kwargs t Hcall.
    destruct (decide ("self" ∈ kwargs.*1)) as [Hin|Hnin].
    + rewrite (call_self_keyword _ _ _ Hin) in Hcall. discriminate.
    + rewrite (call_renders _ _ _ Hnin) in Hcall. by injection Hcall as <-.
  - reflexivity.
  - intros host s. by rewrite !binary_op_left.
  - reflexivity.
Qed.

Lemma embedded_values_use_str_witness :
  text (mkName "f(1,x,k=None)")
  = "f" +:+ "("
    +:+ String.concat ","
          ((py_str <$> [VInt 1; VStr "x"])
           ++ ((fun kv => kv.1 +:+ "=" +:+ py_str kv.2) <$> [("k", VNone)]))%list
    +:+ ")".
Proof.
  exact (proj1 (proj2 (embedded_values_use_str (mkName "f")))
           [VInt 1; VStr "x"] [("k", VNone)] (mkName "f(1,x,k=None)") eq_refl).
Defined.

(** ** Attribute access *)

(** C5, as stated, fails: [upper] is a method of [str] and [__invert__] a
    method of [Name]; ordinary lookup finds them, [__getattr__] is not
    called, and the access yields the bound method, not a token. *)
Lemma getattr_finds_defined_attributes_first :
  getattr str_methods (mkName "a") "upper" <> Computed (mkName "a.upper")
  /\ getattr [] (mkName "a") "__invert__" <> Computed (mkName "a.__invert__").
Proof. split; vm_compute; discriminate. Qed.

(** C5, amended: for a token [a] and an attribute name that ordinary lookup
    does not resolve (it is neither a method of [Name] nor defined by [str],
    [object] or the instance), [a.attr] is the token with text [{a}.{attr}];
    for two such names, [a.b.c] has text [A.b.c]. *)
Theorem getattr_renders_unresolved_attribute
    (inherited : list string) (a : Name) (b : string) :
  b ∉ (NameClass.methods ++ inherited)%list ->
  getattr inherited a b = Computed (mkName (text a +:+ "." +:+ b))
  /\ (forall c : string,
        c ∉ (NameClass.methods ++ inherited)%list ->
        exists t : Name,
          getattr inherited a b = Computed t
          /\ getattr inherited t c
             = Computed (mkName (text a +:+ "." +:+ b +:+ "." +:+ c))).
Proof.
  intros Hb.
  assert (Hone : forall (t : Name) (x : string),
            x ∉ (NameClass.methods ++ inherited)%list ->
            getattr inherited t x = Computed (mkName (text t +:+ "." +:+ x))).
  { intros t x Hx. unfold getattr. by rewrite bool_decide_eq_false_2. }
  split; [by apply Hone|].
  intros c Hc. eexists. split; [by apply Hone|].
  rewrite (Hone _ c Hc). cbn [text]. by rewrite append_assoc.
Qed.

Lemma getattr_renders_unresolved_attribute_witness :
  getattr str_methods (mkName "john") "smith" = Computed (mkName "john.smith").
Proof.
  refine (proj1 (getattr_renders_unresolved_attribute
                   str_methods (mkName "john") "smith" _)).
  apply (bool_decide_eq_true_1 _). vm_compute. reflexivity.
Defined.

(** ** Calls *)

(** C8 at the failing input: [a(1, 2, self=3)] raises [TypeError] where the
    claim has the text [a(1,2,self=3)]; with any other keyword, as in
    [a(1, 2, x=3)], the call renders as claimed. *)
Theorem call_with_keyword_self_raises :
  NameClass.__call__ (mkName "a") [VInt 1; VInt 2] [("self", VInt 3)]
  = Raise TypeError
  /\ NameClass.__call__ (mkName "a") [VInt 1; VInt 2] [("x", VInt 3)]
     = Ok (mkName "a(1,2,x=3)").
Proof. split; reflexivity. Qed.

(** ** Absence of errors *)

(** C6 at the failing input: a call with a keyword argument named [self]
    raises, and such calls are the only ones that do; binary operators with
    a token on either side never raise. *)
Theorem only_keyword_self_raises host (a : Name) :
  NameClass.__call__ a [] [("self", VInt 3)] = Raise TypeError
  /\ (forall (args : list value) (kwargs : list (string * value)),
        (exists t, NameClass.__call__ a args kwargs = Ok t)
        <-> "self" ∉ kwargs.*1)
  /\ (forall (op : binop) (w : value),
        exists t, binary_op host op (VName a) w = Ok (VName t))
  /\ (forall (op : binop) (v : value),
        host op v (VName a) = None ->
        exists t, binary_op host op v (VName a) = Ok (VName t)).
Proof.
  split; [reflexivity|]. split; [|split].
  - intros args kwargs. split.
    + intros [t Ht] Hin. rewrite (call_self_keyword _ _ _ Hin) in Ht.
      discriminate.
    + intros Hnin. eexists. by apply call_renders.
  - intros op w. eexists. apply binary_op_left.
  - intros op v Hhost. eexists. by apply binary_op_right.
Qed.

Lemma only_keyword_self_raises_witness :
  exists t, binary_op (fun _ _ _ => None) Pow (VInt 2) (VName (mkName "n"))
            = Ok (VName t).
Proof.
  exact (proj2 (proj2 (proj2 (only_keyword_self_raises
                                (fun _ _ _ => None) (mkName "n"))))
           Pow (VInt 2) eq_refl).
Defined.

(** ** Comparisons *)

(** Indexing succeeds exactly within [-len, len), where it reads from the
    front for an index from 0 and from the back for a negative one. *)
Lemma list_getitem_Ok {A : Type} (l : list A) (i : Z) (x : A) :
  list_getitem l i = Ok x
  <-> (0 <= i /\ l !! Z.to_nat i = Some x)%Z
      \/ (i < 0 /\ 0 <= i + Z.of_nat (length l)
          /\ l !! Z.to_nat (i + Z.of_nat (length l)) = Some x)%Z.
Proof.
  unfold list_getitem.
  destruct (Z.ltb_spec i 0) as [Hneg|Hpos].
  - destruct (Z.ltb_spec (i + Z.of_nat (length l)) 0) as [Hlow|Hlow]; cbn.
    { split; [discriminate|]. intros [[? _]|(_ & ? & _)]; lia. }
    destruct (Z.leb_spec (Z.of_nat (length l)) (i + Z.of_nat (length l)))
      as [Hhigh|Hhigh]; [lia|].
    destruct (l !! Z.to_nat (i + Z.of_nat (length l))) as [y|].
    + split; [intros [= ->]; by right|].
      intros [[? _]|(_ & _ & [= ->])]; [lia|done].
    + split; [discriminate|].
      intros [[? _]|(_ & _ & ?)]; [lia|discriminate].
  - destruct (Z.ltb_spec i 0) as [?|_]; [lia|]. cbn.
    destruct (Z.leb_spec (Z.of_nat (length l)) i) as [Hhigh|Hhigh].
    + split; [discriminate|].
      intros [[_ Hx]|[? _]]; [|lia].
      apply lookup_lt_Some in Hx. lia.
    + destruct (l !! Z.to_nat i) as [y|].
      * split; [intros [= ->]; by left|].
        intros [[_ [= ->]]|[? _]]; [done|lia].
      * split; [discriminate|]. intros [[_ ?]|[? _]]; [discriminate|lia].
Qed.

Lemma list_getitem_Raise {A : Type} (l : list A) (i : Z) (e : exception) :
  list_getitem l i = Raise e
  <-> e = IndexError
      /\ ~ (- Z.of_nat (length l) <= i < Z.of_nat (length l))%Z.
Proof.
  unfold list_getitem.
  destruct (Z.ltb_spec i 0) as [Hneg|Hpos].
  - destruct (Z.ltb_spec (i + Z.of_nat (length l)) 0) as [Hlow|Hlow]; cbn.
    { split; [intros [= <-]; split; [done|lia]|by intros [-> _]]. }
    destruct (Z.leb_spec (Z.of_nat (length l)) (i + Z.of_nat (length l)))
      as [Hhigh|Hhigh]; [lia|].
    destruct (l !! Z.to_nat (i + Z.of_nat (length l))) as [y|] eqn:E.
    + split; [discriminate|]. intros [_ Hout]. lia.
    + apply lookup_ge_None in E. lia.
  - destruct (Z.ltb_spec i 0) as [?|_]; [lia|]. cbn.
    destruct (Z.leb_spec (Z.of_nat (length l)) i) as [Hhigh|Hhigh].
    + split; [intros [= <-]; split; [done|lia]|by intros [-> _]].
    + destruct (l !! Z.to_nat i) as [y|] eqn:E.
      * split; [discriminate|]. intros [_ Hout]. lia.
      * apply lookup_ge_None in E. lia.
Qed.

(** What [cop] returns once the caller is known to stand at a comparison
    whose decoded operator is [actual]. *)
Lemma cop_at_compare (operator actual : string) (self : Name) (other : value)
    (caller : frame) :
  current_instruction caller = Ok (mkInstruction "COMPARE_OP" actual) ->
  cop operator self other caller
  = Ok (if String.eqb actual operator
        then mkName (text self +:+ operator +:+ py_str other)
        else mkName (py_str other +:+ actual +:+ text self)).
Proof.
  intros Hcur. unfold cop. rewrite Hcur. cbn.
  by destruct (String.eqb actual operator).
Qed.

(** The ordering methods are [cop] at the symbol of their operator. *)
Lemma tp_richcompare_cop (h : cmpop) (self : Name) (other : value)
    (caller : frame) :
  is_ordering h = true ->
  tp_richcompare h self other caller = cop (cmp_symbol h) self other caller.
Proof. by destruct h. Qed.



(** A method reached at the call site of [_ op _]: with the operator of the
    call site it renders its own order, with any other it renders the
    flipped order and the call site's operator. *)
Lemma tp_richcompare_at_compare (op h : cmpop) (self : Name) (other : value)
    (caller : frame) :
  is_ordering h = true ->
  executes_compare caller op ->
  tp_richcompare h self other caller
  = Ok (if String.eqb (cmp_symbol op) (cmp_symbol h)
        then mkName (text self +:+ cmp_symbol h +:+ py_str other)
        else mkName (py_str other +:+ cmp_symbol op +:+ text self)).
Proof.
  intros Hh Hcur. rewrite tp_richcompare_cop by done.
  by apply cop_at_compare.
Qed.


(** ** The assertion in [cop] *)

(** C7: in an ordering method, when the instruction decoded at the caller's
    position is not [COMPARE_OP] the method raises [AssertionError] and
    returns nothing; when it is, the method returns a token. *)
Theorem non_comparison_instruction_is_fatal (h : cmpop) (self : Name)
    (other : value) (caller : frame) (lasti : Instruction) :
  is_ordering h = true ->
  current_instruction caller = Ok lasti ->
  (opname lasti <> "COMPARE_OP" ->
   tp_richcompare h self other caller = Raise AssertionError)
  /\ (opname lasti = "COMPARE_OP" ->
      exists t, tp_richcompare h self other caller = Ok t).
Proof.
  intros Hh Hcur. rewrite tp_richcompare_cop by done.
  unfold cop. rewrite Hcur. cbn. split.
  - intros Hne. apply String.eqb_neq in Hne. by rewrite Hne.
  - intros Heq. apply String.eqb_eq in Heq. rewrite Heq.
    destruct (String.eqb (argval lasti) (cmp_symbol h)); eauto.
Qed.





Lemma non_comparison_instruction_is_fatal_witness :
  tp_richcompare Lt (mkName "a") (VName (mkName "b")) frame_direct_call
  = Raise AssertionError
  /\ exists t, tp_richcompare Lt (mkName "a") (VName (mkName "b")) frame_a_lt_b
               = Ok t.
Proof.
  split.
  - refine (proj1 (non_comparison_instruction_is_fatal
                     Lt (mkName "a") (VName (mkName "b")) frame_direct_call
                     (mkInstruction "CALL_METHOD" "1") eq_refl eq_refl) _).
    discriminate.
  - exact (proj2 (non_comparison_instruction_is_fatal
                    Lt (mkName "a") (VName (mkName "b")) frame_a_lt_b
                    (mkInstruction "COMPARE_OP" "<") eq_refl eq_refl) eq_refl).
Defined.

(** ** Equality and inequality *)

Lemma rich_compare_eq_left host (caller : frame) (op : cmpop) (a : Name)
    (v : value) :
  is_ordering op = false ->
  rich_compare host caller op (VName a) v
  = Ok (VName (mkName (text a +:+ cmp_symbol op +:+ py_str v))).
Proof. by destruct op. Qed.

(** With the token on the right, [==] and [!=] reach [__eq__] and [__ne__]
    of the token, which put the token first. *)
Lemma rich_compare_eq_right host (caller : frame) (op : cmpop) (v : value)
    (a : Name) :
  is_ordering op = false ->
  is_Name v = false ->
  host op v (VName a) = None ->
  rich_compare host caller op v (VName a)
  = Ok (VName (mkName (text a +:+ cmp_symbol op +:+ py_str v))).
Proof.
  intros Hop Hv Hhost. unfold rich_compare.
  destruct v; try discriminate; rewrite ?Hhost; by destruct op.
Qed.

(** C4 at the failing input: ['x' == a] and [1 == a] yield the tokens
    [a==x] and [a==1], not [x==a] and [1==a], and likewise for [!=].  The
    interpreter has no reflected equality: it calls [__eq__] of the token
    with the other operand as argument, and [__req__] and [__rne__], which
    would render the written order, are never reached.  With the token on
    the left the rendering is the claimed one, and nothing raises. *)
Theorem equality_puts_the_token_first host (caller : frame) (a : Name) :
  rich_compare host caller Eq (VStr "x") (VName (mkName "a"))
  = Ok (VName (mkName "a==x"))
  /\ rich_compare (fun _ _ _ => None) caller Eq (VInt 1) (VName (mkName "a"))
     = Ok (VName (mkName "a==1"))
  /\ NameClass.__req__ (mkName "a") (VStr "x") = mkName "x==a"
  /\ (forall (op : cmpop) (v : value),
        is_ordering op = false ->
        rich_compare host caller op (VName a) v
        = Ok (VName (mkName (text a +:+ cmp_symbol op +:+ py_str v))))
  /\ (forall (op : cmpop) (v : value),
        is_ordering op = false ->
        is_Name v = false ->
        host op v (VName a) = None ->
        rich_compare host caller op v (VName a)
        = Ok (VName (mkName (text a +:+ cmp_symbol op +:+ py_str v)))).
Proof.
  split; [reflexivity|]. split; [reflexivity|]. split; [reflexivity|]. split.
  - intros op v Hop. by apply rich_compare_eq_left.
  - intros op v Hop Hv Hhost. by apply rich_compare_eq_right.
Qed.

Lemma equality_puts_the_token_first_witness :
  rich_compare (fun _ _ _ => None) frame_a_lt_b NotEq VNone (VName (mkName "a"))
  = Ok (VName (mkName "a!=None")).
Proof.
  exact (proj2 (proj2 (proj2 (proj2 (equality_puts_the_token_first
                                       (fun _ _ _ => None) frame_a_lt_b
                                       (mkName "a")))))
           NotEq VNone eq_refl eq_refl eq_refl).
Defined.

(** ** Population *)

(** [findnames] written with [flat_map]: the names of the code object,
    then those found in each code constant. *)
Lemma findnames_unfold (names : list string) (consts : list const)
    (instrs : list Instruction) :
  findnames (Code names consts instrs)
  = (names ++ flat_map (fun k => match k with
                                 | ConstCode c' => findnames c'
                                 | ConstValue _ => []
                                 end) consts)%list.
Proof.
  cbn [findnames]. revert names.
  induction consts as [|k consts IH]; intros names.
  - by rewrite app_nil_r.
  - destruct k as [c'|v]; cbn [flat_map].
    + rewrite IH. by rewrite <- app_assoc.
    + by rewrite IH.
Qed.

(** Induction on code objects through their constants. *)
Lemma code_nested_ind (P : code -> Prop) :
  (forall names consts instrs,
     (forall c', ConstCode c' ∈ consts -> P c') ->
     P (Code names consts instrs)) ->
  forall c, P c.
Proof.
  intros Hstep.
  refine (fix IH (c : code) : P c :=
            match c with
            | Code names consts instrs =>
                Hstep names consts instrs
                  ((fix over (l : list const)
                      : forall c', ConstCode c' ∈ l -> P c' :=
                      match l with
                      | [] => fun c' Hin => _
                      | ConstCode c0 :: rest => fun c' Hin => _
                      | ConstValue _ :: rest => fun c' Hin => _
                      end) consts)
            end).
  - clear IH over. exfalso. exact (proj1 (elem_of_nil _) Hin).
  - apply elem_of_cons in Hin as [Heq|Hrest].
    + injection Heq as ->. exact (IH c0).
    + exact (over rest c' Hrest).
  - apply elem_of_cons in Hin as [Heq|Hrest].
    + clear IH over. discriminate Heq.
    + exact (over rest c' Hrest).
Qed.

(** [findnames] collects exactly the names of the code object and of the
    code objects nested in it at any depth. *)
Lemma elem_of_findnames (c : code) (x : string) :
  x ∈ findnames c <-> exists c', nested_in c' c /\ x ∈ co_names c'.
Proof.
  revert x. induction c as [names consts instrs IH] using code_nested_ind.
  intros x. rewrite findnames_unfold, elem_of_app.
  rewrite (list_elem_of_In (flat_map _ _)), in_flat_map.
  split.
  - intros [Hown|(k & Hk & Hx)].
    + exists (Code names consts instrs). split; [constructor|done].
    + destruct k as [c'|v]; [|by destruct Hx].
      apply list_elem_of_In in Hk, Hx.
      apply (IH c' Hk) in Hx as (c'' & Hnest & Hx).
      exists c''. split; [|done]. by eapply nested_const.
  - intros (c'' & Hnest & Hx).
    inversion Hnest as [|? c' ? Hk Hnest']; subst.
    + by left.
    + right. exists (ConstCode c'). split; [by apply list_elem_of_In|].
      apply list_elem_of_In, (IH c' Hk). eauto.
Qed.

Lemma unbound_depends_on_lookup (builtins : gset string) (locals : locals_tier)
    (g g' : gmap string value) (x : string) :
  g' !! x = g !! x -> unbound builtins locals g' x = unbound builtins locals g x.
Proof.
  intros Heq. unfold unbound, in_locals. rewrite Heq.
  destruct locals; by rewrite ?Heq.
Qed.

(** The binding of [x] after the loop has run over [names] from [g]: the
    token [x] if [x] is among the names and passes the test in [g], and
    what [g] had otherwise. *)
Lemma foldl_populate_lookup (builtins : gset string) (locals : locals_tier)
    (names : list string) (g : gmap string value) (x : string) :
  foldl (populate_name builtins locals) g names !! x
  = if bool_decide (x ∈ names) && unbound builtins locals g x
    then Some (VName (mkName x))
    else g !! x.
Proof.
  revert g. induction names as [|n names IH]; intros g.
  - cbn [foldl]. by rewrite bool_decide_eq_false_2 by apply not_elem_of_nil.
  - cbn [foldl]. rewrite IH. clear IH.
    change (populate_name builtins locals g n)
      with (if unbound builtins locals g n
            then <[n := VName (mkName n)]> g else g).
    destruct (decide (x = n)) as [->|Hne].
    + rewrite (bool_decide_eq_true_2 (n ∈ n :: names)) by apply list_elem_of_here.
      destruct (unbound builtins locals g n) eqn:Hg; cbn [andb].
      * assert (unbound builtins locals (<[n:=VName (mkName n)]> g) n = false)
          as ->.
        { unfold unbound. rewrite lookup_insert_eq.
          rewrite (bool_decide_eq_false_2 (Some _ = None)) by done.
          by rewrite andb_false_r. }
        rewrite andb_false_r. apply lookup_insert_eq.
      * rewrite Hg. by rewrite andb_false_r.
    + assert ((if unbound builtins locals g n
               then <[n := VName (mkName n)]> g else g) !! x = g !! x) as Hsame.
      { destruct (unbound builtins locals g n); [|done].
        by rewrite lookup_insert_ne. }
      rewrite (unbound_depends_on_lookup _ _ _ _ _ Hsame), Hsame.
      assert (bool_decide (x ∈ n :: names) = bool_decide (x ∈ names)) as ->; [|done].
      apply bool_decide_ext. rewrite elem_of_cons. tauto.
Qed.

Lemma unbound_iff (builtins : gset string) (fr : frame) (x : string) :
  unbound builtins (f_locals fr) (f_globals fr) x = true
  <-> ~ defined_before builtins fr x.
Proof.
  unfold unbound, defined_before, in_locals.
  destruct (f_locals fr) as [|d]; repeat case_bool_decide; cbn;
    try rewrite <- !not_eq_None_Some in *; split; intros; try done; tauto.
Qed.

Lemma importing_frame_on_load (__name__ : string) (builtins : gset string)
    (stack : list frame) (fr : frame) :
  __name__ <> "__main__" ->
  importing_frame stack = Ok fr ->
  on_load __name__ builtins stack = Ok (Some (populate builtins fr)).
Proof.
  intros Hname Hwalk. unfold on_load.
  apply String.eqb_neq in Hname. rewrite Hname, Hwalk. reflexivity.
Qed.

(** C3: after the pass run by a first load from the importing frame [fr],
    every name [x] referred to by the code of [fr] or by a code object
    nested in it at any depth is bound in the module-level namespace to the
    token with text [x] if and only if it was absent from the built-in
    names, from the module-level bindings and from the local bindings; a
    name present in one of the three is bound as it was before. *)
Theorem population_binds_exactly_the_undefined (__name__ : string)
    (builtins : gset string) (stack : list frame) (fr : frame) :
  __name__ <> "__main__" ->
  importing_frame stack = Ok fr ->
  no_token_bound (f_globals fr) ->
  exists g' : gmap string value,
    on_load __name__ builtins stack = Ok (Some g')
    /\ (forall (c : code) (x : string),
          nested_in c (f_code fr) -> x ∈ co_names c ->
          (g' !! x = Some (VName (mkName x))
           <-> ~ defined_before builtins fr x))
    /\ (forall x : string,
          defined_before builtins fr x -> g' !! x = f_globals fr !! x).
Proof.
  intros Hname Hwalk Hfresh.
  exists (populate builtins fr).
  split; [by apply importing_frame_on_load|].
  assert (Hkeep : forall x, defined_before builtins fr x ->
                    populate builtins fr !! x = f_globals fr !! x).
  { intros x Hdef. unfold populate. rewrite foldl_populate_lookup.
    destruct (unbound builtins (f_locals fr) (f_globals fr) x) eqn:E.
    - apply unbound_iff in E. contradiction.
    - by rewrite andb_false_r. }
  split; [|exact Hkeep].
  intros c x Hnest Hx. split.
  - intros Hbound Hdef. rewrite (Hkeep x Hdef) in Hbound.
    by apply Hfresh in Hbound.
  - intros Hundef. unfold populate. rewrite foldl_populate_lookup.
    rewrite (proj2 (unbound_iff builtins fr x) Hundef).
    rewrite bool_decide_eq_true_2; [done|].
    apply elem_of_findnames. eauto.
Qed.

Lemma population_binds_exactly_the_undefined_witness :
  exists g' : gmap string value,
    on_load "quotelessstrings" sample_builtins [frame_importlib; frame_main]
    = Ok (Some g')
    /\ g' !! "john" = Some (VName (mkName "john"))
    /\ g' !! "y" = Some (VName (mkName "y"))
    /\ g' !! "x" = Some (VInt 5)
    /\ g' !! "print" = None.
Proof.
  assert (Hfresh : no_token_bound (f_globals frame_main)).
  { apply (bool_decide_eq_true_1 _). vm_compute. reflexivity. }
  destruct (population_binds_exactly_the_undefined
              "quotelessstrings" sample_builtins
              [frame_importlib; frame_main] frame_main
              ltac:(discriminate) eq_refl Hfresh)
    as (g' & Hload & Hbind & Hkeep).
  exists g'. split; [exact Hload|]. repeat split.
  - apply (Hbind (f_code frame_main)); [constructor| |].
    + apply (bool_decide_eq_true_1 _). vm_compute. reflexivity.
    + apply (bool_decide_eq_true_1 _). vm_compute. reflexivity.
  - apply (Hbind code_f).
    + eapply nested_const; [|constructor].
      cbn. do 3 apply list_elem_of_further. apply list_elem_of_here.
    + apply (bool_decide_eq_true_1 _). vm_compute. reflexivity.
    + apply (bool_decide_eq_true_1 _). vm_compute. reflexivity.
  - rewrite Hkeep; [reflexivity|].
    right. left. by eexists.
  - rewrite Hkeep; [reflexivity|].
    left. apply (bool_decide_eq_true_1 _). vm_compute. reflexivity.
Defined.

(** * Further properties *)

(** ** Composition of operators *)

Lemma append_eq_empty (s1 s2 : string) : s1 +:+ s2 = "" -> s1 = "" /\ s2 = "".
Proof. destruct s1; [done|discriminate]. Qed.

Lemma binop_symbol_nonempty (op : binop) : binop_symbol op <> "".
Proof. by destruct op. Qed.

Lemma cmp_symbol_nonempty (op : cmpop) : cmp_symbol op <> "".
Proof. by destruct op. Qed.

(** X1: the text keeps no trace of grouping.  For tokens [a], [b], [c] and
    binary operators [p], [q], both [(a p b) q c] and [a p (b q c)] are the
    token with text [ApBqC]; likewise [~(a p b)] and [(~a) p b] are the same
    token. *)
Theorem grouping_is_not_rendered host (p q : binop) (a b c : Name) :
  exists ab bc t : Name,
    binary_op host p (VName a) (VName b) = Ok (VName ab)
    /\ binary_op host q (VName b) (VName c) = Ok (VName bc)
    /\ binary_op host q (VName ab) (VName c) = Ok (VName t)
    /\ binary_op host p (VName a) (VName bc) = Ok (VName t)
    /\ text t = text a +:+ binop_symbol p +:+ text b
                +:+ binop_symbol q +:+ text c
    /\ binary_op host p (VName (NameClass.__invert__ a)) (VName b)
       = Ok (VName (NameClass.__invert__ ab)).
Proof.
  do 3 eexists. rewrite !binary_op_left. cbn [py_str text].
  split; [reflexivity|]. split; [reflexivity|].
  split; [reflexivity|]. split; [|split].
  - cbn [text]. by rewrite !append_assoc.
  - cbn [text]. by rewrite !append_assoc.
  - reflexivity.
Qed.

(** X2: no operation yields the empty text, even on a token whose text is
    empty and a value that renders as nothing: binary operators on either
    side, comparisons at the call site of a comparison, calls, subscripts,
    [~] and computed attributes all leave at least their own symbol. *)
Theorem results_are_never_empty (a : Name) (v : value) (caller : frame)
    (op : cmpop) :
  executes_compare caller op ->
  (forall p : binop,
     text (nb_method p a v) <> "" /\ text (nb_reflected p a v) <> "")
  /\ (forall h : cmpop,
        exists t, tp_richcompare h a v caller = Ok t /\ text t <> "")
  /\ (forall (args : list value) (kwargs : list (string * value)) (t : Name),
        NameClass.__call__ a args kwargs = Ok t -> text t <> "")
  /\ text (NameClass.__getitem__ a v) <> ""
  /\ text (NameClass.__invert__ a) <> ""
  /\ (forall (inherited : list string) (attr : string) (t : Name),
        getattr inherited a attr = Computed t -> text t <> "").
Proof.
  intros Hcur.
  assert (Hmid : forall s1 s2 s3, s2 <> "" -> s1 +:+ s2 +:+ s3 <> "").
  { intros s1 s2 s3 Hs2 He.
    apply append_eq_empty in He as [_ He].
    by apply append_eq_empty in He as [? _]. }
  split; [|split; [|split; [|split; [|split]]]].
  - intros p. rewrite nb_method_lop, nb_reflected_rop.
    split; apply Hmid, binop_symbol_nonempty.
  - intros h. destruct (is_ordering h) eqn:Hh.
    + rewrite (tp_richcompare_at_compare op h) by done.
      eexists. split; [reflexivity|].
      destruct (String.eqb _ _); apply Hmid, cmp_symbol_nonempty.
    + destruct h; try discriminate; eexists; (split; [reflexivity|]);
        by apply Hmid.
  - intros args kwargs t Hcall.
    destruct (decide ("self" ∈ kwargs.*1)) as [Hin|Hnin].
    + rewrite (call_self_keyword _ _ _ Hin) in Hcall. discriminate.
    + rewrite (call_renders _ _ _ Hnin) in Hcall. injection Hcall as <-.
      by apply Hmid.
  - by apply Hmid.
  - discriminate.
  - intros inherited attr t. unfold getattr. case_bool_decide; [discriminate|].
    intros [= <-]. by apply Hmid.
Qed.

Lemma results_are_never_empty_witness :
  exists t, tp_richcompare GtE (mkName "") (VStr "") frame_a_lt_b = Ok t
            /\ text t <> "".
Proof.
  exact (proj1 (proj2 (results_are_never_empty
                         (mkName "") (VStr "") frame_a_lt_b Lt eq_refl)) GtE).
Defined.

(** X3: attribute access, call and subscript compose left to right.  For an
    attribute name that ordinary lookup does not resolve and keyword
    arguments other than [self], [a.attr(args, kwargs)[key]] is the token
    whose text is [A.attr], the arguments in parentheses, then the key in
    brackets. *)
Theorem method_call_chain_renders (inherited : list string) (a : Name)
    (attr : string) (args : list value) (kwargs : list (string * value))
    (key : value) :
  attr ∉ (NameClass.methods ++ inherited)%list ->
  "self" ∉ kwargs.*1 ->
  exists f r : Name,
    getattr inherited a attr = Computed f
    /\ NameClass.__call__ f args kwargs = Ok r
    /\ text (NameClass.__getitem__ r key)
       = text a +:+ "." +:+ attr +:+ "("
         +:+ String.concat ","
               ((py_str <$> args)
                ++ ((fun kv => kv.1 +:+ "=" +:+ py_str kv.2) <$> kwargs))%list
         +:+ ")[" +:+ py_str key +:+ "]".
Proof.
  intros Hattr Hself. do 2 eexists.
  split; [unfold getattr; by rewrite bool_decide_eq_false_2|].
  split; [by apply call_renders|].
  unfold NameClass.__getitem__, NameClass.__getattr__, lop.
  cbn [text py_str]. rewrite !append_assoc. reflexivity.
Qed.

Lemma method_call_chain_renders_witness :
  exists f r : Name,
    getattr str_methods (mkName "db") "query" = Computed f
    /\ NameClass.__call__ f [VStr "users"] [("limit", VInt 5)] = Ok r
    /\ text (NameClass.__getitem__ r (VInt 0))
       = "db" +:+ "." +:+ "query" +:+ "("
         +:+ String.concat ","
               ((py_str <$> [VStr "users"])
                ++ ((fun kv => kv.1 +:+ "=" +:+ py_str kv.2)
                      <$> [("limit", VInt 5)]))%list
         +:+ ")[" +:+ py_str (VInt 0) +:+ "]".
Proof.
  apply (method_call_chain_renders str_methods (mkName "db") "query"
           [VStr "users"] [("limit", VInt 5)] (VInt 0)).
  - apply (bool_decide_eq_true_1 _). vm_compute. reflexivity.
  - apply (bool_decide_eq_true_1 _). vm_compute. reflexivity.
Defined.

(** ** The position [cop] decodes *)

(** X4: an ordering method raises [IndexError] exactly when the caller's
    byte offset lies outside the decoded instructions, that is outside
    [-2n, 2n) for [n] instructions; it raises nothing but [IndexError] and
    [AssertionError]; and at an offset from 0 it decodes instruction
    number [f_lasti // 2], the same for the two bytes of an instruction. *)
Theorem cop_decodes_half_the_offset (operator : string) (self : Name)
    (other : value) (fr : frame) :
  let instrs := get_instructions (f_code fr) in
  let n := Z.of_nat (length instrs) in
  (cop operator self other fr = Raise IndexError
   <-> ~ (- 2 * n <= f_lasti fr < 2 * n)%Z)
  /\ (forall e : exception,
        cop operator self other fr = Raise e ->
        e = IndexError \/ e = AssertionError)
  /\ (forall k : nat,
        (f_lasti fr = 2 * Z.of_nat k \/ f_lasti fr = 2 * Z.of_nat k + 1)%Z ->
        current_instruction fr
        = match instrs !! k with
          | Some i => Ok i
          | None => Raise IndexError
          end).
Proof.
  intros instrs n.
  assert (Hhalf : (- n <= f_lasti fr / 2 < n <-> - 2 * n <= f_lasti fr < 2 * n)%Z).
  { pose proof (Z.div_mod (f_lasti fr) 2 ltac:(lia)).
    pose proof (Z.mod_pos_bound (f_lasti fr) 2 ltac:(lia)). lia. }
  split; [|split].
  - unfold cop. destruct (current_instruction fr) as [i|e] eqn:E; cbn.
    + split.
      * destruct (String.eqb (opname i) "COMPARE_OP");
          [destruct (String.eqb (argval i) operator)|]; discriminate.
      * intros Hout. exfalso. apply Hout, Hhalf.
        apply list_getitem_Ok in E. fold instrs in E. fold n in E.
        destruct E as [[? Hx]|(? & ? & Hx)]; apply lookup_lt_Some in Hx;
          fold n in Hx; lia.
    + apply list_getitem_Raise in E as [-> Hout]. fold instrs n in Hout.
      split; [intros _; by rewrite <- Hhalf|done].
  - intros e. unfold cop.
    destruct (current_instruction fr) as [i|e'] eqn:E; cbn.
    + destruct (String.eqb (opname i) "COMPARE_OP");
        [destruct (String.eqb (argval i) operator)|]; try discriminate.
      intros [= <-]. by right.
    + apply list_getitem_Raise in E as [-> _]. intros [= <-]. by left.
  - intros k Hk.
    assert (f_lasti fr / 2 = Z.of_nat k)%Z as Hdiv.
    { pose proof (Z.div_mod (f_lasti fr) 2 ltac:(lia)).
      pose proof (Z.mod_pos_bound (f_lasti fr) 2 ltac:(lia)). lia. }
    unfold current_instruction. rewrite Hdiv. fold instrs.
    destruct (instrs !! k) as [i|] eqn:E.
    + apply list_getitem_Ok. left. rewrite Nat2Z.id. split; [lia|done].
    + apply list_getitem_Raise. split; [done|].
      apply lookup_ge_None in E. lia.
Qed.

Lemma cop_decodes_half_the_offset_witness :
  current_instruction
    (mkFrame (f_code frame_a_lt_b) 5 ∅ LocalsAreGlobals)
  = Ok (mkInstruction "COMPARE_OP" "<").
Proof.
  refine (proj2 (proj2 (cop_decodes_half_the_offset
                          "<" (mkName "a") VNone
                          (mkFrame (f_code frame_a_lt_b) 5 ∅ LocalsAreGlobals)))
            2%nat _).
  right. reflexivity.
Defined.

(** ** The walk to the importing frame *)

Lemma importing_frame_skip (pre rest : list frame) :
  Forall stepped_over pre ->
  importing_frame (pre ++ rest) = importing_frame rest.
Proof.
  induction 1 as [|fr pre [[v Hv] Hmain] _ IH]; [done|].
  cbn [app importing_frame]. unfold is_main in Hmain.
  rewrite Hv in Hmain |- *.
  destruct v; try done. by rewrite Hmain.
Qed.

Lemma importing_frame_stop (fr : frame) (f_back : list frame) :
  is_main fr = true -> importing_frame (fr :: f_back) = Ok fr.
Proof.
  unfold is_main. cbn [importing_frame].
  destruct (f_globals fr !! "__name__") as [[]|]; try discriminate.
  by intros ->.
Qed.

(** X5: the walk returns a frame exactly when it is the first frame of the
    chain whose [__name__] is the string [__main__] and every frame before
    it has some other [__name__]: frames of other modules and of the import
    machinery are stepped over, however many there are. *)
Theorem importing_frame_is_first_main (stack : list frame) (fr : frame) :
  importing_frame stack = Ok fr
  <-> exists pre post : list frame,
        stack = (pre ++ fr :: post)%list
        /\ Forall stepped_over pre
        /\ is_main fr = true.
Proof.
  split.
  - induction stack as [|f stack IH]; [discriminate|].
    intros Hwalk. destruct (is_main f) eqn:Hf.
    + rewrite (importing_frame_stop f stack Hf) in Hwalk.
      injection Hwalk as <-.
      exists [], stack. by repeat split.
    + cbn [importing_frame] in Hwalk.
      assert (is_Some (f_globals f !! "__name__")
              /\ importing_frame stack = Ok fr) as [Hnamed Hrest].
      { unfold is_main in Hf.
        destruct (f_globals f !! "__name__") as [v|]; [|discriminate].
        split; [by eexists|]. destruct v; try done. by rewrite Hf in Hwalk. }
      destruct (IH Hrest) as (pre & post & -> & Hpre & Hmain).
      exists (f :: pre), post. repeat split; [|done].
      by constructor.
  - intros (pre & post & -> & Hpre & Hmain).
    rewrite importing_frame_skip by done. by apply importing_frame_stop.
Qed.

Lemma importing_frame_is_first_main_witness :
  importing_frame [frame_importlib; frame_importlib; frame_main; frame_main]
  = Ok frame_main.
Proof.
  apply importing_frame_is_first_main.
  exists [frame_importlib; frame_importlib], [frame_main].
  split; [reflexivity|]. split; [|reflexivity].
  repeat constructor; by eexists.
Defined.

(** X6: loading fails when the walk does.  Under a name other than
    [__main__], a chain in which every frame has a [__name__] that is not
    the string [__main__] ends the walk on [None] and raises
    [AttributeError]; a frame without [__name__] reached before any
    [__main__] frame raises [KeyError].  Run as [__main__], the module
    neither walks nor populates. *)
Theorem on_load_fails_without_main_frame (__name__ : string)
    (builtins : gset string) (pre : list frame) :
  __name__ <> "__main__" ->
  Forall stepped_over pre ->
  on_load __name__ builtins pre = Raise AttributeError
  /\ (forall (fr : frame) (post : list frame),
        f_globals fr !! "__name__" = None ->
        on_load __name__ builtins (pre ++ fr :: post) = Raise KeyError)
  /\ (forall stack : list frame, on_load "__main__" builtins stack = Ok None).
Proof.
  intros Hname Hpre. apply String.eqb_neq in Hname.
  split; [|split].
  - unfold on_load. rewrite Hname.
    rewrite <- (app_nil_r pre), importing_frame_skip by done. reflexivity.
  - intros fr post Hfr. unfold on_load. rewrite Hname.
    rewrite importing_frame_skip by done.
    cbn [importing_frame]. by rewrite Hfr.
  - reflexivity.
Qed.

Lemma on_load_fails_without_main_frame_witness :
  on_load "quotelessstrings" sample_builtins [frame_importlib; frame_importlib]
  = Raise AttributeError
  /\ on_load "quotelessstrings" sample_builtins
       [frame_importlib; frame_a_lt_b; frame_main]
     = Raise KeyError.
Proof.
  assert (Hstep : Forall stepped_over [frame_importlib]).
  { repeat constructor; by eexists. }
  split.
  - refine (proj1 (on_load_fails_without_main_frame
                     "quotelessstrings" sample_builtins
                     [frame_importlib; frame_importlib] _ _)).
    + discriminate.
    + repeat constructor; by eexists.
  - refine (proj1 (proj2 (on_load_fails_without_main_frame
                            "quotelessstrings" sample_builtins
                            [frame_importlib] _ Hstep))
              frame_a_lt_b [frame_main] eq_refl).
    discriminate.
Defined.

(** ** The population loop *)

Lemma populate_lookup (builtins : gset string) (fr : frame) (x : string) :
  populate builtins fr !! x
  = if bool_decide (x ∈ findnames (f_code fr))
       && unbound builtins (f_locals fr) (f_globals fr) x
    then Some (VName (mkName x))
    else f_globals fr !! x.
Proof. apply foldl_populate_lookup. Qed.

Lemma unbound_lookup_None (builtins : gset string) (locals : locals_tier)
    (g : gmap string value) (x : string) :
  unbound builtins locals g x = true -> g !! x = None.
Proof.
  unfold unbound. rewrite !andb_true_iff, !bool_decide_eq_true. tauto.
Qed.

(** X7: the pass only adds.  Every binding of the module-level namespace
    is still there with its value afterwards, and whatever else is bound
    afterwards is a name collected by [findnames], bound to the token of
    that very name. *)
Theorem populate_only_adds_tokens (builtins : gset string) (fr : frame) :
  f_globals fr ⊆ populate builtins fr
  /\ (forall (x : string) (v : value),
        populate builtins fr !! x = Some v ->
        f_globals fr !! x = Some v
        \/ (f_globals fr !! x = None
            /\ v = VName (mkName x)
            /\ x ∈ findnames (f_code fr))).
Proof.
  split.
  - apply map_subseteq_spec. intros x v Hx. rewrite populate_lookup.
    destruct (unbound builtins (f_locals fr) (f_globals fr) x) eqn:E.
    + apply unbound_lookup_None in E. congruence.
    + by rewrite andb_false_r.
  - intros x v. rewrite populate_lookup.
    case_bool_decide as Hin; cbn [andb]; [|by left].
    destruct (unbound builtins (f_locals fr) (f_globals fr) x) eqn:E;
      [|by left].
    intros [= <-]. right. split; [by eapply unbound_lookup_None|done].
Qed.

Lemma populate_only_adds_tokens_witness :
  f_globals frame_main !! "x" = Some (VInt 5)
  \/ (f_globals frame_main !! "x" = None
      /\ VInt 5 = VName (mkName "x")
      /\ "x" ∈ findnames (f_code frame_main)).
Proof.
  exact (proj2 (populate_only_adds_tokens sample_builtins frame_main)
           "x" (VInt 5) eq_refl).
Defined.

(** X8: the pass is idempotent: run again on the namespace it has
    produced, with the same code, built-ins and locals, it changes
    nothing. *)
Theorem populate_idempotent (builtins : gset string) (fr : frame) :
  populate builtins (with_globals fr (populate builtins fr))
  = populate builtins fr.
Proof.
  apply map_eq. intros x.
  rewrite (populate_lookup builtins (with_globals fr _)).
  cbn [with_globals f_code f_locals f_globals].
  destruct (bool_decide (x ∈ findnames (f_code fr))
            && unbound builtins (f_locals fr) (f_globals fr) x) eqn:E.
  - assert (populate builtins fr !! x = Some (VName (mkName x))) as Hx.
    { by rewrite populate_lookup, E. }
    assert (unbound builtins (f_locals fr) (populate builtins fr) x = false)
      as ->; [|by rewrite andb_false_r].
    unfold unbound. rewrite Hx.
    rewrite (bool_decide_eq_false_2 (Some _ = None)) by done.
    by rewrite andb_false_r.
  - assert (populate builtins fr !! x = f_globals fr !! x) as Hx.
    { by rewrite populate_lookup, E. }
    by rewrite (unbound_depends_on_lookup _ _ _ _ _ Hx), E.
Qed.

(** X9: after the pass every collected name resolves: it is a built-in
    name, or bound in the module-level namespace, or bound in the frame's
    locals. *)
Theorem populate_leaves_no_name_undefined (builtins : gset string)
    (fr : frame) (x : string) :
  x ∈ findnames (f_code fr) ->
  defined_before builtins (with_globals fr (populate builtins fr)) x.
Proof.
  intros Hin. unfold defined_before.
  cbn [with_globals f_locals f_globals].
  rewrite populate_lookup, (bool_decide_eq_true_2 _ Hin). cbn [andb].
  destruct (unbound builtins (f_locals fr) (f_globals fr) x) eqn:E;
    [right; left; by eexists|].
  unfold unbound, in_locals in E.
  destruct (decide (x ∈ builtins)) as [?|Hb]; [by left|].
  destruct (f_globals fr !! x) as [v|] eqn:Hg; [right; left; by eexists|].
  right. right.
  rewrite (bool_decide_eq_true_2 _ Hb) in E.
  rewrite (bool_decide_eq_true_2 (None = None)) in E by done.
  destruct (f_locals fr) as [|d]; cbn [andb] in E;
    apply negb_false_iff, bool_decide_eq_true in E; [|done].
  by destruct E.
Qed.

Lemma populate_leaves_no_name_undefined_witness :
  defined_before sample_builtins
    (with_globals frame_main (populate sample_builtins frame_main)) "y".
Proof.
  apply populate_leaves_no_name_undefined.
  apply (bool_decide_eq_true_1 _). vm_compute. reflexivity.
Defined.

(** X10: what a name is bound to after the pass depends on which names are
    collected, not on their order or on how often each occurs: in two
    frames with the same namespaces whose code objects yield the same set
    of names, every name looks up to the same value afterwards.  (The
    order in which the namespace holds its keys follows the order of
    collection; it is no part of this statement.) *)
Theorem populate_lookup_depends_on_the_set_of_names (builtins : gset string)
    (fr1 fr2 : frame) :
  f_globals fr1 = f_globals fr2 ->
  f_locals fr1 = f_locals fr2 ->
  (forall x, x ∈ findnames (f_code fr1) <-> x ∈ findnames (f_code fr2)) ->
  forall x : string, populate builtins fr1 !! x = populate builtins fr2 !! x.
Proof.
  intros Hg Hl Hnames x.
  rewrite !populate_lookup, Hg, Hl.
  by rewrite (bool_decide_ext _ _ (Hnames x)).
Qed.

Lemma populate_lookup_depends_on_the_set_of_names_witness :
  populate sample_builtins
    (mkFrame (Code ["john"; "smith"; "john"] [] []) 0 ∅ LocalsAreGlobals)
  !! "john"
  = populate sample_builtins
      (mkFrame (Code ["smith"] [ConstCode (Code ["john"] [] [])] [])
         0 ∅ LocalsAreGlobals)
    !! "john".
Proof.
  apply populate_lookup_depends_on_the_set_of_names;
    [reflexivity|reflexivity|].
  intros x. cbn. rewrite !elem_of_cons. tauto.
Defined.

(** X11: at module level, where [f_locals] is [f_globals], the third test
    of the loop never decides: the pass gives what it would give with empty
    locals. *)
Theorem module_level_locals_test_is_redundant (builtins : gset string)
    (fr : frame) :
  f_locals fr = LocalsAreGlobals ->
  populate builtins fr
  = populate builtins
      (mkFrame (f_code fr) (f_lasti fr) (f_globals fr) (LocalsOwn ∅)).
Proof.
  intros Hl. apply map_eq. intros x.
  rewrite !populate_lookup. cbn [f_code f_locals f_globals]. rewrite Hl.
  assert (unbound builtins LocalsAreGlobals (f_globals fr) x
          = unbound builtins (LocalsOwn ∅) (f_globals fr) x) as ->; [|done].
  unfold unbound, in_locals. rewrite lookup_empty.
  destruct (f_globals fr !! x) eqn:E; repeat case_bool_decide; cbn;
    try done; exfalso;
    repeat match goal with
           | H : is_Some None |- _ => by destruct H
           | H : ¬ is_Some (Some _) |- _ => apply H; by eexists
           end.
Qed.

Lemma module_level_locals_test_is_redundant_witness :
  populate sample_builtins frame_main
  = populate sample_builtins
      (mkFrame (f_code frame_main) (f_lasti frame_main)
         (f_globals frame_main) (LocalsOwn ∅)).
Proof. exact (module_level_locals_test_is_redundant _ frame_main eq_refl). Defined.

(** ** [findnames] *)

Lemma nested_in_trans (c1 c2 c3 : code) :
  nested_in c1 c2 -> nested_in c2 c3 -> nested_in c1 c3.
Proof.
  intros H12 H23. induction H23 as [|c c' c'' Hk _ IH]; [done|].
  eapply nested_const; [done|]. by apply IH.
Qed.

(** X12: [findnames] returns the code object's own names first, then the
    rest; a name is returned exactly when some code object nested in the
    argument at any depth, or the argument itself, has it among its names;
    so the names of a nested code object are all among those of the
    enclosing one; and a code object with no code object among its
    constants yields just its own names. *)
Theorem findnames_collects_nested_names (c : code) :
  co_names c `prefix_of` findnames c
  /\ (forall x : string,
        x ∈ findnames c <-> exists c', nested_in c' c /\ x ∈ co_names c')
  /\ (forall c' : code, nested_in c' c -> findnames c' ⊆ findnames c)
  /\ ((forall c' : code, ConstCode c' ∉ co_consts c) ->
      findnames c = co_names c).
Proof.
  split; [|split; [|split]].
  - destruct c as [names consts instrs]. rewrite findnames_unfold.
    by eexists.
  - intros x. apply elem_of_findnames.
  - intros c' Hnest x Hx.
    apply elem_of_findnames in Hx as (c'' & Hnest' & Hx).
    apply elem_of_findnames. exists c''. split; [|done].
    by eapply nested_in_trans.
  - destruct c as [names consts instrs]. cbn [co_consts co_names].
    intros Hnone. rewrite findnames_unfold.
    assert (flat_map (fun k => match k with
                               | ConstCode c' => findnames c'
                               | ConstValue _ => []
                               end) consts = []) as ->;
      [|by rewrite app_nil_r].
    induction consts as [|k consts IH]; [done|]. cbn [flat_map].
    destruct k as [c'|v].
    + exfalso. apply (Hnone c'). apply list_elem_of_here.
    + apply IH. intros c' Hin. apply (Hnone c').
      by apply list_elem_of_further.
Qed.

Lemma findnames_collects_nested_names_witness :
  findnames code_f ⊆ findnames (f_code frame_main)
  /\ findnames code_f = co_names code_f.
Proof.
  split.
  - refine (proj1 (proj2 (proj2 (findnames_collects_nested_names
                                   (f_code frame_main)))) code_f _).
    eapply nested_const; [|constructor].
    cbn. do 3 apply list_elem_of_further. apply list_elem_of_here.
  - refine (proj2 (proj2 (proj2 (findnames_collects_nested_names code_f))) _).
    intros c' Hin. cbn in Hin.
    apply elem_of_cons in Hin as [Heq|Hin]; [discriminate|].
    by apply elem_of_nil in Hin.
Defined.
